(** * Layout core of typst: fixed-size nodes, areas, feedback and the
      function-definition macros.

    Shallow embedding of [src/src/layout/fixed.rs] ([NodeFixed::layout]) and
    of [src/src/func.rs] (the [function!] and [body!] macros), together with
    the parts of the crate these files use but which are not part of them
    ([Feedback], [Pass], [Span], [Spanned], [Linear], [Area], [Areas],
    [FuncHeader]).  Lengths are [f64] in the crate; they are represented here
    by rationals, since no claim depends on rounding. *)

From Stdlib Require Import List String QArith.
Import ListNotations.
Open Scope string_scope.
Open Scope list_scope.

(** ** Geometry *)

Definition Length := Q.

(** [Size { width, height }]. *)
Record Size := mkSize { width : Length; height : Length }.

(** Modelled from the spec: [Linear] (crate::geom, not part of these files),
    "a length expressed as absolute + ratio x reference". *)
Record Linear := mkLinear { rel : Q; abs : Length }.

(** Modelled from the spec: [Linear::resolve]. *)
Definition resolve (l : Linear) (reference : Length) : Length :=
  (rel l * reference + abs l)%Q.

(** ** The area model *)

(** [Area { rem, full }]. *)
Record Area := mkArea { rem : Size; full : Size }.

(** Modelled from the spec: [Area::new], the region of one size that is
    still entirely available. *)
Definition Area_new (size : Size) : Area := mkArea size size.

(** Modelled from the spec: [Areas], a cursor over a possibly unbounded
    sequence of regions: the current one, the ones queued after it, and an
    optional last size that repeats forever. *)
Record Areas := mkAreas {
  current : Area;
  backlog : list Size;
  last : option Size;
}.

(** Modelled from the spec: [Areas::once], one region with no successor. *)
Definition Areas_once (size : Size) : Areas :=
  mkAreas (Area_new size) [] None.

(** Modelled from the spec: advancing the cursor to the successor region,
    [None] when there is none. *)
Definition Areas_next (areas : Areas) : option Areas :=
  match backlog areas with
  | s :: rest => Some (mkAreas (Area_new s) rest (last areas))
  | [] =>
      match last areas with
      | Some s => Some (mkAreas (Area_new s) [] (Some s))
      | None => None
      end
  end.

(** The first [fuel] regions a layout can flow into, starting at the current
    one. *)
Fixpoint regions (fuel : nat) (areas : Areas) : list Area :=
  match fuel with
  | O => []
  | S fuel' =>
      current areas ::
        match Areas_next areas with
        | Some next => regions fuel' next
        | None => []
        end
  end.

(** ** Layout of primitive nodes *)

Section NodeLayout.

(** The layout context (borrowed mutably by [Layout::layout]) and the
    per-node layout result. *)
Variable LayoutContext : Type.
Variable Layouted : Type.

(** [Node]: a type-erased handle to a value implementing [Layout].  The
    trait method [layout(&self, ctx: &mut LayoutContext, areas: &Areas)]
    becomes a function that threads the context and leaves the borrowed
    [areas] alone. *)
Record Node := mkNode {
  node_layout : LayoutContext -> Areas -> LayoutContext * Layouted;
}.

(** [struct NodeFixed { width, height, child }]. *)
Record NodeFixed := mkNodeFixed {
  fixed_width : option Linear;
  fixed_height : option Linear;
  child : Node;
}.

(** The size computed at the head of [NodeFixed::layout]:
    [self.width.map(|w| w.resolve(full.width)).unwrap_or(rem.width)] and the
    same for the height. *)
Definition NodeFixed_size (self : NodeFixed) (a : Area) : Size :=
  let '(mkArea rem full) := a in
  mkSize
    (match fixed_width self with
     | Some w => resolve w (width full)
     | None => width rem
     end)
    (match fixed_height self with
     | Some h => resolve h (height full)
     | None => height rem
     end).

(** [impl Layout for NodeFixed]. *)
Definition NodeFixed_layout (self : NodeFixed) (ctx : LayoutContext)
    (areas : Areas) : LayoutContext * Layouted :=
  let size := NodeFixed_size self (current areas) in
  let areas := Areas_once size in
  node_layout (child self) ctx areas.

(** [impl From<NodeFixed> for Node]: [Node::any(fixed)]. *)
Definition Node_of_fixed (fixed : NodeFixed) : Node :=
  mkNode (NodeFixed_layout fixed).

End NodeLayout.

Arguments mkNode {LayoutContext Layouted}.
Arguments node_layout {LayoutContext Layouted}.
Arguments mkNodeFixed {LayoutContext Layouted}.
Arguments fixed_width {LayoutContext Layouted}.
Arguments fixed_height {LayoutContext Layouted}.
Arguments child {LayoutContext Layouted}.
Arguments NodeFixed_size {LayoutContext Layouted}.
Arguments NodeFixed_layout {LayoutContext Layouted}.
Arguments Node_of_fixed {LayoutContext Layouted}.

(** ** Diagnostics *)

(** Modelled from the spec: [Span], start and end offsets into the source. *)
Record Span := mkSpan { span_start : nat; span_end : nat }.

(** Modelled from the spec: [Spanned<T> { v, span }]. *)
Record Spanned (A : Type) := mkSpanned { v : A; span : Span }.
Arguments mkSpanned {A}.
Arguments v {A}.
Arguments span {A}.

(** Modelled from the spec: an error carries a human-readable message. *)
Record Error := mkError { message : string }.

(** Modelled from the spec: the style decorations reported alongside
    errors. *)
Inductive Decoration :=
| ValidFuncName
| InvalidFuncName
| ArgumentKey.

(** Modelled from the spec: [Feedback { errors, decorations }]. *)
Record Feedback := mkFeedback {
  errors : list (Spanned Error);
  decorations : list (Spanned Decoration);
}.

(** Modelled from the spec: [Feedback::new]. *)
Definition Feedback_new : Feedback := mkFeedback [] [].

(** Modelled from the spec: [Feedback::extend], which "concatenates both
    sequences in order"; [self] is taken by [&mut], so the result is the
    updated receiver. *)
Definition Feedback_extend (self more : Feedback) : Feedback :=
  mkFeedback (errors self ++ errors more)
             (decorations self ++ decorations more).

(** [feedback.errors.push(e)]. *)
Definition push_error (f : Feedback) (e : Spanned Error) : Feedback :=
  mkFeedback (errors f ++ [e]) (decorations f).

(** Modelled from the spec: [Pass<T> { output, feedback }]. *)
Record Pass (T : Type) := mkPass { output : T; feedback : Feedback }.
Arguments mkPass {T}.
Arguments output {T}.
Arguments feedback {T}.

(** [err!(span; msg)]. *)
Definition err (sp : Span) (msg : string) : Spanned Error :=
  mkSpanned (mkError msg) sp.

(** ** Function parsing *)

Section FuncParse.

(** Argument expressions, the parse context, the content tree produced by
    the markup parser, and the markup parser itself
    ([crate::syntax::parse(start, src, ctx)]) are external collaborators. *)
Variable Expr : Type.
Variable ParseContext : Type.
Variable SyntaxModel : Type.
Variable syntax_parse : nat -> string -> ParseContext -> Pass SyntaxModel.

(** Modelled from the spec: a spanned argument, positional or named. *)
Inductive Arg :=
| Pos (e : Spanned Expr)
| Key (k : Spanned string) (e : Spanned Expr).

(** Modelled from the spec: [FuncHeader { name, args }], the arguments an
    ordered list from which the implementation consumes. *)
Record FuncHeader := mkFuncHeader {
  name : Spanned string;
  args : list (Spanned Arg);
}.

(** The [$code] block of a [function!] definition.  It sees the header and
    the feedback through [&mut] borrows, so it returns their new values
    together with the constructed function value. *)
Definition ParseCode (Meta T : Type) : Type :=
  FuncHeader -> option (Spanned string) -> ParseContext -> Meta -> Feedback ->
  FuncHeader * Feedback * T.

(** [function!(@parse ...)]: the generated [ParseFunc::parse]. *)
Definition parse_func {Meta T : Type} (code : ParseCode Meta T)
    (header : FuncHeader) (body : option (Spanned string))
    (ctx : ParseContext) (metadata : Meta) : Pass T :=
  let f := Feedback_new in
  let '(header, f, func) := code header body ctx metadata f in
  let f :=
    fold_left (fun f (arg : Spanned Arg) =>
                 push_error f (err (span arg) "unexpected argument"))
              (args header) f in
  mkPass func f.

(** [body!(opt: body, ctx, feedback)]. *)
Definition body_opt (body : option (Spanned string)) (ctx : ParseContext)
    (f : Feedback) : option SyntaxModel * Feedback :=
  match body with
  | Some body =>
      let parsed := syntax_parse (span_start (span body)) (v body) ctx in
      (Some (output parsed), Feedback_extend f (feedback parsed))
  | None => (None, f)
  end.

(** [body!(nope: body, feedback)]; the macro evaluates to [()]. *)
Definition body_nope (body : option (Spanned string)) (f : Feedback)
    : Feedback :=
  match body with
  | Some body => push_error f (err (span body) "unexpected body")
  | None => f
  end.

(** A [$code] block following the no-body policy: it starts with
    [body!(nope: body, f)] and the rest of the block does not read the
    body. *)
Definition nope_code {Meta T : Type}
    (rest : FuncHeader -> ParseContext -> Meta -> Feedback ->
            FuncHeader * Feedback * T) : ParseCode Meta T :=
  fun header body ctx metadata f =>
    let f := body_nope body f in
    rest header ctx metadata f.

End FuncParse.

Arguments Pos {Expr}.
Arguments Key {Expr}.
Arguments mkFuncHeader {Expr}.
Arguments name {Expr}.
Arguments args {Expr}.
Arguments parse_func {Expr ParseContext Meta T}.
Arguments body_opt {ParseContext SyntaxModel}.
Arguments nope_code {Expr ParseContext Meta T}.

(** The diagnostic the [function!] macro pushes for one leftover argument. *)
Definition unexpected_argument {Expr : Type} (arg : Spanned (Arg Expr))
    : Spanned Error :=
  err (span arg) "unexpected argument".

(** [l1] is [l2] with some elements removed, the rest kept in order: what
    consuming arguments from a header does to its argument list. *)
Inductive Subseq {A : Type} : list A -> list A -> Prop :=
| Subseq_nil : Subseq [] []
| Subseq_skip x l1 l2 : Subseq l1 l2 -> Subseq l1 (x :: l2)
| Subseq_keep x l1 l2 : Subseq l1 l2 -> Subseq (x :: l1) (x :: l2).

(** ** The other arms of [function!] *)

(** [parse(default)]: the arm expands to
    [parse(_h, _b, _c, _f, _m) { Default::default() }], code that touches
    neither the header, the body nor the feedback. *)
Definition default_code {Expr PC Meta T : Type} (default : T)
    : ParseCode Expr PC Meta T :=
  fun header _ _ _ f => (header, f, default).

(** [parse(h, b, c, f) code]: the four-name arm, which binds the metadata
    to [_metadata] and so gives the code no access to it. *)
Definition code_without_meta {Expr PC Meta T : Type}
    (code : FuncHeader Expr -> option (Spanned string) -> PC -> Feedback ->
            FuncHeader Expr * Feedback * T) : ParseCode Expr PC Meta T :=
  fun header body ctx _metadata f => code header body ctx f.

(** Modelled from the spec: [Command], the instructions a function's layout
    emits; only the variant used in this file is listed. *)
Inductive Command (SM : Type) :=
| LayoutSyntaxModel (model : SM).
Arguments LayoutSyntaxModel {SM}.

Definition Commands (SM : Type) : Type := list (Command SM).

(** [function!(@layout ...)]: the generated [Model::layout].  The future
    runs the [$code] block with a fresh [Feedback] and packs its commands
    with that feedback; [ctx] is moved into the block, so the caller's
    context is not threaded back. *)
Definition layout_func {Self LC SM : Type}
    (code : Self -> LC -> Feedback -> Feedback * Commands SM)
    (this : Self) (ctx : LC) : Pass (Commands SM) :=
  let f := Feedback_new in
  let '(f, commands) := code this ctx f in
  mkPass commands f.

(** ** The [HiderFunc] example of the [function!] documentation *)

Section Hider.

Variable Expr : Type.
Variable PC : Type.
Variable SM : Type.
Variable syntax_parse : nat -> string -> PC -> Pass SM.

(** [header.args.pos.get::<bool>(&mut f.errors)] is a method of the
    argument list, which is not part of these files: it may consume
    arguments and report errors, and yields the boolean it found. *)
Variable get_bool :
  list (Spanned (Arg Expr)) -> list (Spanned Error) ->
  list (Spanned (Arg Expr)) * list (Spanned Error) * option bool.

(** Modelled from the spec: [Option::or_missing(errors, span, what)], which
    reports a missing required argument (the example documents the message
    "missing argument: hidden" at the function's name) and passes the value
    on. *)
Definition or_missing {A : Type} (o : option A) (errs : list (Spanned Error))
    (sp : Span) (what : string) : list (Spanned Error) * option A :=
  match o with
  | Some x => (errs, Some x)
  | None => (errs ++ [err sp ("missing argument: " ++ what)%string], None)
  end.

(** [struct HiderFunc { body: Option<SyntaxModel> }]. *)
Record HiderFunc := mkHiderFunc { hider_body : option SM }.

(** The [parse(header, body, ctx, f)] block of [HiderFunc]. *)
Definition hider_parse_code
    : FuncHeader Expr -> option (Spanned string) -> PC -> Feedback ->
      FuncHeader Expr * Feedback * HiderFunc :=
  fun header body ctx f =>
    let '(body, f) := body_opt syntax_parse body ctx f in
    let '(rest, errs, got) := get_bool (args header) (errors f) in
    let header := mkFuncHeader (name header) rest in
    let '(errs, hidden) := or_missing got errs (span (name header)) "hidden" in
    let hidden := match hidden with Some b => b | None => false end in
    (header, mkFeedback errs (decorations f),
     mkHiderFunc (if hidden then None else body)).

(** [ParseFunc::parse] for [HiderFunc] ([Meta = ()]). *)
Definition hider_parse (header : FuncHeader Expr)
    (body : option (Spanned string)) (ctx : PC) : Pass HiderFunc :=
  parse_func (Meta := unit) (code_without_meta hider_parse_code)
    header body ctx tt.

(** The [layout(self, ctx, f)] block of [HiderFunc]. *)
Definition hider_layout_code {LC : Type} (this : HiderFunc) (_ : LC)
    (f : Feedback) : Feedback * Commands SM :=
  (f, match hider_body this with
      | Some model => [LayoutSyntaxModel model]
      | None => []
      end).

(** [Model::layout] for [HiderFunc]. *)
Definition hider_layout {LC : Type} (this : HiderFunc) (ctx : LC)
    : Pass (Commands SM) :=
  layout_func hider_layout_code this ctx.

End Hider.

Arguments or_missing {A}.
Arguments mkHiderFunc {SM}.
Arguments hider_body {SM}.
Arguments hider_parse_code {Expr PC SM}.
Arguments hider_parse {Expr PC SM}.
Arguments hider_layout_code {SM LC}.
Arguments hider_layout {SM LC}.

(** ** Helper lemmas *)

Lemma Subseq_map {A B : Type} (g : A -> B) l1 l2 :
  Subseq l1 l2 -> Subseq (map g l1) (map g l2).
Proof.
  induction 1; simpl; constructor; assumption.
Qed.

Lemma fold_push_errors {Expr : Type} (l : list (Spanned (Arg Expr))) f :
  fold_left (fun f arg => push_error f (err (span arg) "unexpected argument"))
            l f
  = mkFeedback (errors f ++ map unexpected_argument l) (decorations f).
Proof.
  revert f; induction l as [|a l IH]; intros f; simpl.
  - rewrite app_nil_r; destruct f; reflexivity.
  - rewrite IH; simpl; rewrite <- app_assoc; reflexivity.
Qed.

(** ** Fixed-size nodes *)

(** C1: the size [NodeFixed::layout] resolves takes its width from
    [L.resolve(full.width)] when the width is [Some L], whatever [rem] is,
    and from [rem.width] when it is [None], whatever [full] is; the same for
    the height; the child is laid out in [Areas::once] of that size. *)
Theorem NodeFixed_resolved_size {LC LD : Type} (n : NodeFixed LC LD)
    (ctx : LC) (areas : Areas) :
  let a := current areas in
  width (NodeFixed_size n a) =
    match fixed_width n with
    | Some L => resolve L (width (full a))
    | None => width (rem a)
    end /\
  height (NodeFixed_size n a) =
    match fixed_height n with
    | Some L => resolve L (height (full a))
    | None => height (rem a)
    end /\
  NodeFixed_layout n ctx areas =
    node_layout (child n) ctx (Areas_once (NodeFixed_size n a)).
Proof.
  unfold NodeFixed_layout; simpl.
  destruct (current areas) as [r f]; simpl.
  repeat split; reflexivity.
Qed.

(** C3: laying out a [NodeFixed] (through its [Node] handle) gives the same
    result, context included, as laying out its child directly in
    [Areas::once] of the fixed node's resolved size. *)
Theorem NodeFixed_layout_delegates {LC LD : Type} (n : NodeFixed LC LD)
    (ctx : LC) (areas : Areas) :
  node_layout (Node_of_fixed n) ctx areas =
    node_layout (child n) ctx
      (Areas_once (NodeFixed_size n (current areas))).
Proof. reflexivity. Qed.

(** C10: the areas handed to the child have [full = rem = ] the resolved
    size and no successor, so a fixed node nested inside resolves its own
    [Linear]s against the outer node's resolved size, not against the
    enclosing region.  The enclosing [Areas] is only borrowed: the layout
    returns the context and the result, never new areas. *)
Theorem NodeFixed_child_areas {LC LD : Type} (n : NodeFixed LC LD)
    (ctx : LC) (areas : Areas) :
  (exists areas',
     NodeFixed_layout n ctx areas = node_layout (child n) ctx areas' /\
     full (current areas') = NodeFixed_size n (current areas) /\
     rem (current areas') = NodeFixed_size n (current areas) /\
     Areas_next areas' = None) /\
  (forall (inner : NodeFixed LC LD) w h,
     let outer := mkNodeFixed w h (Node_of_fixed inner) in
     let s := NodeFixed_size outer (current areas) in
     NodeFixed_layout outer ctx areas =
       node_layout (child inner) ctx
         (Areas_once (NodeFixed_size inner (Area_new s))) /\
     width (NodeFixed_size inner (Area_new s)) =
       match fixed_width inner with
       | Some L => resolve L (width s)
       | None => width s
       end /\
     height (NodeFixed_size inner (Area_new s)) =
       match fixed_height inner with
       | Some L => resolve L (height s)
       | None => height s
       end).
Proof.
  split.
  - exists (Areas_once (NodeFixed_size n (current areas))).
    repeat split.
  - intros inner w h; simpl.
    repeat split.
Qed.

(** ** Areas *)

(** C8: [Areas::once(S)] has current area [{ full: S, rem: S }], no
    successor, and so exactly one region however far it is followed. *)
Theorem Areas_once_single (s : Size) :
  current (Areas_once s) = {| full := s; rem := s |} /\
  Areas_next (Areas_once s) = None /\
  (forall fuel, regions (S fuel) (Areas_once s) = [{| full := s; rem := s |}]).
Proof.
  repeat split.
Qed.

(** ** Feedback *)

(** C9: [Feedback::extend] concatenates errors and decorations, receiver
    first, and is associative. *)
Theorem Feedback_extend_assoc (a b c : Feedback) :
  Feedback_extend (Feedback_extend a b) c = Feedback_extend a (Feedback_extend b c) /\
  errors (Feedback_extend a b) = errors a ++ errors b /\
  decorations (Feedback_extend a b) = decorations a ++ decorations b.
Proof.
  unfold Feedback_extend; simpl.
  rewrite !app_assoc; repeat split.
Qed.

(** ** Function parsing *)

(** A concrete check: a width of half the full width plus 1 inside a region
    of full width 10 and remaining width 4 resolves to 6; no height keeps the
    remaining height. *)
Example NodeFixed_size_example :
  NodeFixed_size (LayoutContext := unit) (Layouted := unit)
    (mkNodeFixed (Some (mkLinear (1 # 2) 1)) None (mkNode (fun c _ => (c, tt))))
    (mkArea (mkSize 4 3) (mkSize 10 8))
  = mkSize ((1 # 2) * 10 + 1)%Q 3 /\
  Qeq_bool ((1 # 2) * 10 + 1)%Q 6 = true.
Proof. split; reflexivity. Qed.

(** C2: after [parse] returns, the errors are those of the implementation's
    code followed by one "unexpected argument" diagnostic, at the argument's
    span, per argument the code left in the header, in header order; when
    the code only consumes arguments, these diagnostics are an ordered
    subsequence of one diagnostic per original argument.  The draining is
    done by the generated [parse], for any code. *)
Theorem parse_func_unexpected_arguments {Expr PC Meta T : Type}
    (code : ParseCode Expr PC Meta T) (header : FuncHeader Expr)
    (body : option (Spanned string)) (ctx : PC) (metadata : Meta)
    (header' : FuncHeader Expr) (f' : Feedback) (func : T)
    (Hcode : code header body ctx metadata Feedback_new = (header', f', func))
    (Hconsume : Subseq (args header') (args header)) :
  errors (feedback (parse_func code header body ctx metadata)) =
    errors f' ++ map unexpected_argument (args header') /\
  decorations (feedback (parse_func code header body ctx metadata)) =
    decorations f' /\
  Subseq (map unexpected_argument (args header'))
         (map unexpected_argument (args header)).
Proof.
  unfold parse_func; rewrite Hcode.
  rewrite fold_push_errors; simpl.
  split; [reflexivity | split; [reflexivity |]].
  apply Subseq_map; exact Hconsume.
Qed.

(** An implementation that consumes the first argument of its header. *)
Definition take_first_code : ParseCode bool unit unit unit :=
  fun header _ _ _ f => (mkFuncHeader (name header) (tl (args header)), f, tt).

Definition two_arg_header : FuncHeader bool :=
  mkFuncHeader (mkSpanned "f" (mkSpan 1 2))
    [mkSpanned (Pos (mkSpanned true (mkSpan 3 7))) (mkSpan 3 7);
     mkSpanned (Key (mkSpanned "hidden" (mkSpan 9 15))
                    (mkSpanned false (mkSpan 17 22))) (mkSpan 9 22)].

Lemma parse_func_unexpected_arguments_witness :
  take_first_code two_arg_header None tt tt Feedback_new =
    (mkFuncHeader (name two_arg_header) (tl (args two_arg_header)),
     Feedback_new, tt) /\
  errors (feedback (parse_func take_first_code two_arg_header None tt tt)) =
    [err (mkSpan 9 22) "unexpected argument"].
Proof.
  split; [reflexivity |].
  destruct (parse_func_unexpected_arguments take_first_code two_arg_header
              None tt tt
              (mkFuncHeader (name two_arg_header) (tl (args two_arg_header)))
              Feedback_new tt eq_refl
              (Subseq_skip _ _ _ (Subseq_keep _ _ _ Subseq_nil)))
    as [He _].
  rewrite He; reflexivity.
Defined.

(** C7: the generated [parse] always returns the value the implementation's
    code constructed, whatever errors were collected. *)
Theorem parse_func_keeps_output {Expr PC Meta T : Type}
    (code : ParseCode Expr PC Meta T) (header : FuncHeader Expr)
    (body : option (Spanned string)) (ctx : PC) (metadata : Meta) :
  output (parse_func code header body ctx metadata) =
    snd (code header body ctx metadata Feedback_new).
Proof.
  unfold parse_func.
  destruct (code header body ctx metadata Feedback_new) as [[h f] func].
  reflexivity.
Qed.

(** C4: [body!(nope: ...)] adds nothing without a body and exactly one
    "unexpected body" error at the body's span with one; a function
    following this policy parses to the same value and feedback whatever
    the body's text is. *)
Theorem body_nope_policy {Expr PC Meta T : Type}
    (rest : FuncHeader Expr -> PC -> Meta -> Feedback ->
            FuncHeader Expr * Feedback * T)
    (header : FuncHeader Expr) (b : Spanned string) (s' : string)
    (ctx : PC) (metadata : Meta) (f : Feedback) :
  body_nope None f = f /\
  errors (body_nope (Some b) f) = errors f ++ [err (span b) "unexpected body"] /\
  decorations (body_nope (Some b) f) = decorations f /\
  parse_func (nope_code rest) header (Some b) ctx metadata =
    parse_func (nope_code rest) header (Some (mkSpanned s' (span b))) ctx metadata.
Proof.
  repeat split.
Qed.

(** C5: [body!(opt: ...)] without a body gives [None] and leaves the
    feedback as it was. *)
Theorem body_opt_absent {PC SM : Type}
    (syntax_parse : nat -> string -> PC -> Pass SM) (ctx : PC) (f : Feedback) :
  body_opt syntax_parse None ctx f = (None, f).
Proof. reflexivity. Qed.

(** C6: [body!(opt: ...)] with a body parses its text from
    [body.span.start], appends the nested feedback to the function's, and
    keeps the nested content tree. *)
Theorem body_opt_present {PC SM : Type}
    (syntax_parse : nat -> string -> PC -> Pass SM) (b : Spanned string)
    (ctx : PC) (f : Feedback) :
  let parsed := syntax_parse (span_start (span b)) (v b) ctx in
  fst (body_opt syntax_parse (Some b) ctx f) = Some (output parsed) /\
  errors (snd (body_opt syntax_parse (Some b) ctx f)) =
    errors f ++ errors (feedback parsed) /\
  decorations (snd (body_opt syntax_parse (Some b) ctx f)) =
    decorations f ++ decorations (feedback parsed).
Proof.
  repeat split.
Qed.

(** ** Further properties of the function macros *)

(** A [parse(default)] function builds its [Default] value, reports every
    argument of the header as unexpected, in order, reports nothing about a
    body even when one is given, and adds no decoration. *)
Theorem default_parse_reports_all_args {Expr PC Meta T : Type} (d : T)
    (header : FuncHeader Expr) (body : option (Spanned string)) (ctx : PC)
    (metadata : Meta) :
  parse_func (default_code d) header body ctx metadata =
    mkPass d (mkFeedback (map unexpected_argument (args header)) []).
Proof.
  unfold parse_func, default_code.
  rewrite fold_push_errors; reflexivity.
Qed.


(** When the implementation's code consumes every argument, [parse]
    reports exactly the feedback the code produced: no "unexpected
    argument" diagnostic is added. *)
Theorem parse_func_all_consumed {Expr PC Meta T : Type}
    (code : ParseCode Expr PC Meta T) (header : FuncHeader Expr)
    (body : option (Spanned string)) (ctx : PC) (metadata : Meta)
    (header' : FuncHeader Expr) (f' : Feedback) (func : T)
    (Hcode : code header body ctx metadata Feedback_new = (header', f', func))
    (Hall : args header' = []) :
  parse_func code header body ctx metadata = mkPass func f'.
Proof.
  unfold parse_func; rewrite Hcode, Hall; simpl.
  destruct f'; reflexivity.
Qed.

(** An implementation that consumes every argument of its header. *)
Definition take_all_code : ParseCode bool unit unit unit :=
  fun header _ _ _ f => (mkFuncHeader (name header) [], f, tt).

Lemma parse_func_all_consumed_witness :
  take_all_code two_arg_header None tt tt Feedback_new =
    (mkFuncHeader (name two_arg_header) [], Feedback_new, tt) /\
  parse_func take_all_code two_arg_header None tt tt = mkPass tt Feedback_new.
Proof.
  split; [reflexivity |].
  exact (parse_func_all_consumed take_all_code two_arg_header None tt tt
           (mkFuncHeader (name two_arg_header) []) Feedback_new tt
           eq_refl eq_refl).
Defined.

(** ** Further properties of [NodeFixed] *)

(** [NodeFixed::layout] only reads the current area of the enclosing
    [Areas]: the regions queued after it never affect the layout. *)
Theorem NodeFixed_ignores_successors {LC LD : Type} (n : NodeFixed LC LD)
    (ctx : LC) (a : Area) (b1 b2 : list Size) (l1 l2 : option Size) :
  NodeFixed_layout n ctx (mkAreas a b1 l1) =
    NodeFixed_layout n ctx (mkAreas a b2 l2).
Proof. reflexivity. Qed.

(** A [NodeFixed] with both a width and a height lays out the same way in
    any enclosing areas with the same full size of the current region: the
    remaining size and the successor regions play no part. *)
Theorem NodeFixed_both_fixed_ignores_rem {LC LD : Type} (n : NodeFixed LC LD)
    (w h : Linear) (Hw : fixed_width n = Some w) (Hh : fixed_height n = Some h)
    (ctx : LC) (areas : Areas) (r : Size) (b : list Size) (l : option Size) :
  NodeFixed_layout n ctx areas =
    NodeFixed_layout n ctx (mkAreas (mkArea r (full (current areas))) b l).
Proof.
  unfold NodeFixed_layout, NodeFixed_size.
  destruct (current areas) as [r0 f0]; simpl.
  rewrite Hw, Hh; reflexivity.
Qed.

Lemma NodeFixed_both_fixed_ignores_rem_witness :
  let n := mkNodeFixed (LayoutContext := unit) (Layouted := Size)
             (Some (mkLinear 1 0)) (Some (mkLinear 0 5))
             (mkNode (fun c areas => (c, full (current areas)))) in
  fixed_width n = Some (mkLinear 1 0) /\ fixed_height n = Some (mkLinear 0 5) /\
  NodeFixed_layout n tt (Areas_once (mkSize 10 20)) =
    NodeFixed_layout n tt
      (mkAreas (mkArea (mkSize 3 4) (mkSize 10 20)) [mkSize 1 1] None).
Proof.
  intros n; split; [reflexivity | split; [reflexivity |]].
  exact (NodeFixed_both_fixed_ignores_rem n _ _ eq_refl eq_refl tt
           (Areas_once (mkSize 10 20)) (mkSize 3 4) [mkSize 1 1] None).
Defined.

(** A [NodeFixed] with neither a width nor a height is transparent inside
    [Areas::once(s)]: its child is laid out in exactly those areas. *)
Theorem NodeFixed_unset_transparent_in_once {LC LD : Type} (c : Node LC LD)
    (ctx : LC) (s : Size) :
  NodeFixed_layout (mkNodeFixed None None c) ctx (Areas_once s) =
    node_layout c ctx (Areas_once s).
Proof.
  destruct s; reflexivity.
Qed.

(** Wrapping a child in an inner [NodeFixed] with neither width nor height
    changes nothing: the outer fixed node lays out as if the child were its
    direct child. *)
Theorem NodeFixed_nested_unset {LC LD : Type} (w h : option Linear)
    (c : Node LC LD) (ctx : LC) (areas : Areas) :
  NodeFixed_layout (mkNodeFixed w h (Node_of_fixed (mkNodeFixed None None c)))
    ctx areas =
  NodeFixed_layout (mkNodeFixed w h c) ctx areas.
Proof.
  unfold NodeFixed_layout at 1; simpl.
  apply NodeFixed_unset_transparent_in_once.
Qed.

(** ** The [HiderFunc] example *)

(** When the [hidden] argument is [true], the parsed [HiderFunc] has no
    body, whatever body was given, and its layout emits no command and no
    diagnostic. *)
Theorem hider_hidden_emits_nothing {Expr PC SM LC : Type}
    (syntax_parse : nat -> string -> PC -> Pass SM)
    (get_bool : list (Spanned (Arg Expr)) -> list (Spanned Error) ->
                list (Spanned (Arg Expr)) * list (Spanned Error) * option bool)
    (header : FuncHeader Expr) (body : option (Spanned string)) (ctx : PC)
    (rest : list (Spanned (Arg Expr))) (errs : list (Spanned Error))
    (Hget : get_bool (args header)
              (errors (snd (body_opt syntax_parse body ctx Feedback_new)))
            = (rest, errs, Some true))
    (lctx : LC) :
  hider_body (output (hider_parse syntax_parse get_bool header body ctx)) = None /\
  hider_layout (output (hider_parse syntax_parse get_bool header body ctx)) lctx
    = mkPass [] Feedback_new.
Proof.
  unfold hider_parse, parse_func, code_without_meta, hider_parse_code.
  destruct (body_opt syntax_parse body ctx Feedback_new) as [b f] eqn:Hb.
  simpl in Hget; rewrite Hget; simpl.
  split; reflexivity.
Qed.

(** When [hidden] is [false] or missing, the parsed [HiderFunc] keeps the
    content tree parsed from its body, and its layout emits one
    [LayoutSyntaxModel] of that tree (nothing without a body) and no
    diagnostic. *)
Theorem hider_shown_keeps_body {Expr PC SM LC : Type}
    (syntax_parse : nat -> string -> PC -> Pass SM)
    (get_bool : list (Spanned (Arg Expr)) -> list (Spanned Error) ->
                list (Spanned (Arg Expr)) * list (Spanned Error) * option bool)
    (header : FuncHeader Expr) (body : option (Spanned string)) (ctx : PC)
    (rest : list (Spanned (Arg Expr))) (errs : list (Spanned Error))
    (got : option bool)
    (Hget : get_bool (args header)
              (errors (snd (body_opt syntax_parse body ctx Feedback_new)))
            = (rest, errs, got))
    (Hshown : got <> Some true)
    (lctx : LC) :
  hider_body (output (hider_parse syntax_parse get_bool header body ctx)) =
    fst (body_opt syntax_parse body ctx Feedback_new) /\
  hider_layout (output (hider_parse syntax_parse get_bool header body ctx)) lctx
    = mkPass (match body with
              | Some b =>
                  [LayoutSyntaxModel
                     (output (syntax_parse (span_start (span b)) (v b) ctx))]
              | None => []
              end) Feedback_new.
Proof.
  unfold hider_parse, parse_func, code_without_meta, hider_parse_code.
  destruct body as [b|]; simpl in *; rewrite Hget;
    destruct got as [[|]|]; simpl;
    try (exfalso; apply Hshown; reflexivity);
    split; reflexivity.
Qed.

(** When [hidden] is missing, [parse] reports, after the errors of the body
    and of the argument lookup, one "missing argument: hidden" error at the
    function's name, followed by one "unexpected argument" error per
    argument left over. *)
Theorem hider_missing_hidden_reported {Expr PC SM : Type}
    (syntax_parse : nat -> string -> PC -> Pass SM)
    (get_bool : list (Spanned (Arg Expr)) -> list (Spanned Error) ->
                list (Spanned (Arg Expr)) * list (Spanned Error) * option bool)
    (header : FuncHeader Expr) (body : option (Spanned string)) (ctx : PC)
    (rest : list (Spanned (Arg Expr))) (errs : list (Spanned Error))
    (Hget : get_bool (args header)
              (errors (snd (body_opt syntax_parse body ctx Feedback_new)))
            = (rest, errs, None)) :
  errors (feedback (hider_parse syntax_parse get_bool header body ctx)) =
    errs ++ [err (span (name header)) "missing argument: hidden"]
         ++ map unexpected_argument rest.
Proof.
  unfold hider_parse, parse_func, code_without_meta, hider_parse_code.
  destruct (body_opt syntax_parse body ctx Feedback_new) as [b f] eqn:Hb.
  simpl in Hget; rewrite Hget; simpl.
  rewrite fold_push_errors; simpl.
  rewrite <- app_assoc; reflexivity.
Qed.

(** A concrete markup parser for the examples: the content tree is the
    text itself, with no diagnostics. *)
Definition text_parse (_ : nat) (s : string) (_ : unit) : Pass string :=
  mkPass s Feedback_new.

(** A concrete boolean lookup for the examples: it consumes the first
    positional argument and yields its value. *)
Fixpoint first_pos_bool (l : list (Spanned (Arg bool)))
    (errs : list (Spanned Error))
    : list (Spanned (Arg bool)) * list (Spanned Error) * option bool :=
  match l with
  | [] => ([], errs, None)
  | a :: l' =>
      match v a with
      | Pos e => (l', errs, Some (v e))
      | Key _ _ =>
          let '(rest, errs, got) := first_pos_bool l' errs in
          (a :: rest, errs, got)
      end
  end.

Definition hider_body_text : option (Spanned string) :=
  Some (mkSpanned "Hi, you." (mkSpan 23 31)).

(** [[hider: true][Hi, you.]] (here with a stray [hidden] key as well). *)
Lemma hider_hidden_emits_nothing_witness :
  first_pos_bool (args two_arg_header) [] =
    ([mkSpanned (Key (mkSpanned "hidden" (mkSpan 9 15))
                     (mkSpanned false (mkSpan 17 22))) (mkSpan 9 22)],
     [], Some true) /\
  hider_layout
    (output (hider_parse text_parse first_pos_bool two_arg_header
               hider_body_text tt)) tt = mkPass [] Feedback_new.
Proof.
  split; [reflexivity |].
  exact (proj2 (hider_hidden_emits_nothing text_parse first_pos_bool
                  two_arg_header hider_body_text tt _ [] eq_refl tt)).
Defined.

Definition no_arg_header : FuncHeader bool :=
  mkFuncHeader (mkSpanned "hider" (mkSpan 1 6)) [].

(** [[hider][Hi, you.]]: the body is shown. *)
Lemma hider_shown_keeps_body_witness :
  first_pos_bool (args no_arg_header) [] = ([], [], None) /\
  hider_layout
    (output (hider_parse text_parse first_pos_bool no_arg_header
               hider_body_text tt)) tt
    = mkPass [LayoutSyntaxModel "Hi, you."] Feedback_new.
Proof.
  split; [reflexivity |].
  exact (proj2 (hider_shown_keeps_body text_parse first_pos_bool
                  no_arg_header hider_body_text tt [] [] None eq_refl
                  ltac:(discriminate) tt)).
Defined.

(** [[hider][Hi, you.]]: "missing argument: hidden" at the name. *)
Lemma hider_missing_hidden_reported_witness :
  first_pos_bool (args no_arg_header) [] = ([], [], None) /\
  errors (feedback (hider_parse text_parse first_pos_bool no_arg_header
                      hider_body_text tt))
    = [err (mkSpan 1 6) "missing argument: hidden"].
Proof.
  split; [reflexivity |].
  exact (hider_missing_hidden_reported text_parse first_pos_bool
           no_arg_header hider_body_text tt [] [] eq_refl).
Defined.
